(** * Column transformers of [experiments/model_lr.py]

    A shallow embedding of the three scikit-learn style transformers of
    the experiment ([ColumnsSelector], [CategoricalImputer],
    [CategoricalEncoder]), of the pandas operations they call, and of the
    grid-search step of the script, followed by the properties of the
    specification that were checked against them. *)

From Stdlib Require Import ZArith QArith.
From stdpp Require Import gmap strings list fin_maps pretty sorting.

Local Open Scope string_scope.
Local Open Scope nat_scope.

(** ** Python exceptions and results *)

Inductive exn :=
| KeyError (key : string)
| AttributeError (attr : string)
| TypeError (msg : string)
| IndexError (msg : string)
| ValueError (msg : string).

Inductive result (A : Type) :=
| Ok (a : A)
| Raise (e : exn).

Arguments Ok {A} a.
Arguments Raise {A} e.

(** Sequencing: an exception of the first computation ends the whole
    one.  Written [x ← r; k] below. *)
#[global] Instance result_bind : MBind result := λ A B k r,
  match r with
  | Ok a => k a
  | Raise e => Raise e
  end.

#[global] Instance result_ret : MRet result := λ A a, Ok a.

Definition is_ok {A} (r : result A) : bool :=
  match r with Ok _ => true | Raise _ => false end.

(** ** The part of pandas the transformers use *)

Module Pandas.

(** Column dtypes that occur in the experiment: the numeric ones and
    [object] (strings and missing values). *)
Inductive Dtype := int64 | float64 | uint8 | object.

(** A non-missing cell.  A float is kept as its shortest round-trip
    decimal representation (what [repr] prints): no arithmetic on floats
    is modelled, only their identity and their printed form. *)
Inductive scalar :=
| Int (z : Z)
| Float (repr : string)
| Str (s : string).

(** A cell: [None] is pandas' missing value (NaN / None). *)
Abbreviation cell := (option scalar).

Record Series := mkSeries {
  name : string;
  dtype : Dtype;
  values : list cell
}.

(** A table is the list of its columns, in column order. *)
Abbreviation DataFrame := (list Series).

#[global] Instance Dtype_eq_dec : EqDecision Dtype.
Proof. solve_decision. Defined.

#[global] Instance scalar_eq_dec : EqDecision scalar.
Proof. solve_decision. Defined.

#[global] Instance Series_eq_dec : EqDecision Series.
Proof. solve_decision. Defined.

(** [X.columns] *)
Definition columns (X : DataFrame) : list string := map name X.

(** [X[column]]: the column with that label, [KeyError] when absent. *)
Fixpoint getitem (X : DataFrame) (column : string) : result Series :=
  match X with
  | [] => Raise (KeyError column)
  | s :: X' => if decide (name s = column) then Ok s else getitem X' column
  end.

(** What [select_dtypes(include=[tag])] accepts: a concrete dtype name or
    the generic ['number']. *)
Inductive type_tag :=
| Exactly (d : Dtype)
| Number.

Definition is_numeric (d : Dtype) : bool :=
  match d with
  | object => false
  | _ => true
  end.

Definition tag_matches (t : type_tag) (d : Dtype) : bool :=
  match t with
  | Exactly d' => bool_decide (d = d')
  | Number => is_numeric d
  end.

(** [X.select_dtypes(include=[tag])]: the columns whose dtype matches, in
    the order they have in [X]. *)
Definition select_dtypes (t : type_tag) (X : DataFrame) : DataFrame :=
  filter (λ s, tag_matches t (dtype s) = true) X.

(** Number of occurrences of [x] among the cells. *)
Definition count (x : scalar) (l : list cell) : nat :=
  length (filter (λ c, c = Some x) l).

(** The distinct non-missing values, in order of first appearance. *)
Fixpoint first_seen (l : list cell) : list scalar :=
  match l with
  | [] => []
  | None :: l' => first_seen l'
  | Some x :: l' => x :: filter (λ y, y ≠ x) (first_seen l')
  end.

(** Stable insertion into a list sorted by descending count. *)
Fixpoint insert_desc (p : scalar * nat) (l : list (scalar * nat))
  : list (scalar * nat) :=
  match l with
  | [] => [p]
  | q :: l' => if q.2 <=? p.2 then p :: q :: l' else q :: insert_desc p l'
  end.

Definition sort_desc (l : list (scalar * nat)) : list (scalar * nat) :=
  foldr insert_desc [] l.

(** [Series.value_counts()]: each distinct non-missing value with its
    count, most frequent first.  pandas leaves the order among equal
    counts unspecified; the model keeps the order of first appearance
    (what a stable descending sort gives). *)
Definition value_counts (l : list cell) : list (scalar * nat) :=
  sort_desc (map (λ x, (x, count x l)) (first_seen l)).

(** [value_counts().index.tolist()] *)
Definition value_counts_index (l : list cell) : list scalar :=
  map fst (value_counts l).

(** Which scalars a dtype stores without conversion. *)
Definition fits (d : Dtype) (v : scalar) : bool :=
  match d, v with
  | object, _ => true
  | float64, Float _ => true
  | (int64 | uint8), Int _ => true
  | _, _ => false
  end.

(** [Series.fillna(v)]: every missing cell becomes [v], the others are
    kept.  A series without missing cell is returned as it is; an integer
    filled into a float column is converted; a fill value the dtype cannot
    hold turns the column into an object column. *)
Definition fillna (v : scalar) (s : Series) : Series :=
  if bool_decide (None ∈ values s) then
    match dtype s, v with
    | float64, Int z =>
        mkSeries (name s) float64
          (map (λ c, from_option Some (Some (Float (pretty z +:+ ".0"))) c)
               (values s))
    | d, _ =>
        mkSeries (name s) (if fits d v then d else object)
          (map (λ c, from_option Some (Some v) c) (values s))
    end
  else s.

(** [str(level)] as [get_dummies] uses it in column labels. *)
Definition str (v : scalar) : string :=
  match v with
  | Int z => pretty z
  | Float r => r
  | Str s => s
  end.

(** A column converted with [astype(CategoricalDtype(categories))]: its
    label, its categories in dtype order and its cells, where a value that
    is not a category has become missing. *)
Record Categorical := mkCategorical {
  cat_name : string;
  categories_of : list scalar;
  cat_values : list cell
}.

(** [series.astype(CategoricalDtype(categories))]; [CategoricalDtype]
    refuses categories that are not unique. *)
Definition astype_category (categories : list scalar) (s : Series)
  : result Categorical :=
  if decide (NoDup categories) then
    Ok (mkCategorical (name s) categories
          (map (λ c, match c with
                     | Some x => if decide (x ∈ categories) then Some x else None
                     | None => None
                     end) (values s)))
  else Raise (ValueError "Categorical categories must be unique").

(** One indicator column: 1 where the cell is the category, 0 elsewhere
    (so 0 on a missing cell). *)
Definition indicator (prefix : string) (cells : list cell) (level : scalar)
  : Series :=
  mkSeries (prefix +:+ "_" +:+ str level) uint8
    (map (λ c, Some (Int (if decide (c = Some level) then 1 else 0))) cells).

(** [_get_dummies_1d(col, prefix=col.name, prefix_sep='_', drop_first)]:
    one indicator column per category, in category order, without the
    first category when [drop_first]. *)
Definition get_dummies_1d (drop_first : bool) (c : Categorical) : DataFrame :=
  map (indicator (cat_name c) (cat_values c))
      (if drop_first then drop 1 (categories_of c) else categories_of c).

(** What [concat] does with an empty list of frames.  [get_dummies] ends
    in [concat(with_dummies, axis=1)], and for a frame without columns
    that list is empty: [concat] then raises [ValueError]; the other
    behaviour (the empty frame is returned) is kept as an alternative, so
    that nothing proved below depends on this corner of the library. *)
Inductive concat_policy := ConcatRaises | ConcatEmpty.

(** [pd.get_dummies(X, drop_first=...)] on a frame whose columns are all
    categorical. *)
Definition get_dummies (pol : concat_policy) (drop_first : bool)
    (X : list Categorical) : result DataFrame :=
  match X, pol with
  | [], ConcatRaises => Raise (ValueError "No objects to concatenate")
  | _, _ => Ok (flat_map (get_dummies_1d drop_first) X)
  end.

End Pandas.

Import Pandas.

(** ** [ColumnsSelector] *)

Module ColumnsSelector.

Record t := mk { type : type_tag }.

(** [__init__(self, type)] *)
Definition init (type : type_tag) : t := mk type.

(** [fit]: returns [self]. *)
Definition fit (self : t) (X : DataFrame) : t := self.

(** [transform]: [X.select_dtypes(include=[self.type])]. *)
Definition transform (self : t) (X : DataFrame) : DataFrame :=
  select_dtypes (type self) X.

End ColumnsSelector.

(** ** [CategoricalImputer] *)

Module CategoricalImputer.

(** The object's attributes.  [fill] is [None] until [fit] has assigned
    the attribute; [columns] is [None] for the default argument. *)
Record t := mk {
  columns : option (list string);
  strategy : string;
  fill : option (gmap string scalar)
}.

(** [__init__(self, columns=None, strategy='most_frequent')] *)
Definition init (columns : option (list string)) (strategy : string) : t :=
  mk columns strategy None.

(** [X[column].value_counts().index[0]] *)
Definition most_frequent (X : DataFrame) (column : string) : result scalar :=
  s ← getitem X column;
  match value_counts_index (values s) with
  | v :: _ => Ok v
  | [] => Raise (IndexError "index 0 is out of bounds for axis 0 with size 0")
  end.

(** The dict comprehension [{column: f(column) for column in columns}],
    left to right; the first exception ends it. *)
Fixpoint dict_of (f : string → result scalar) (columns : list string)
    (acc : gmap string scalar) : result (gmap string scalar) :=
  match columns with
  | [] => Ok acc
  | column :: rest => v ← f column; dict_of f rest (<[column := v]> acc)
  end.

(** [fit(self, X)].  The object after the call and what the call did:
    when the comprehension raises, [self.columns] has already been set
    and [self.fill] keeps what it had.  The test
    [self.strategy is 'most_frequent'] compares with an interned literal
    and is modelled as string equality. *)
Definition fit (self : t) (X : DataFrame) : t * result unit :=
  let cols := default (Pandas.columns X) (columns self) in
  let self1 := mk (Some cols) (strategy self) (fill self) in
  let d :=
    if String.eqb (strategy self) "most_frequent"
    then dict_of (most_frequent X) cols ∅
    else dict_of (λ _, Ok (Str "0")) cols ∅ in
  match d with
  | Ok d => (mk (Some cols) (strategy self) (Some d), Ok ())
  | Raise e => (self1, Raise e)
  end.

(** The body of the loop of [transform], on the copy:
    [X_copy[column] = X_copy[column].fillna(self.fill[column])].
    The right-hand side is evaluated first: the column lookup, then the
    attribute [self.fill], then its entry. *)
Definition transform_step (self : t) (X_copy : DataFrame) (column : string)
  : result DataFrame :=
  _ ← getitem X_copy column;
  d ← match fill self with
      | Some d => Ok d
      | None => Raise (AttributeError "fill")
      end;
  v ← match d !! column with
      | Some v => Ok v
      | None => Raise (KeyError column)
      end;
  Ok (map (λ s, if decide (name s = column) then fillna v s else s) X_copy).

Fixpoint transform_loop (self : t) (columns : list string)
    (X_copy : DataFrame) : result DataFrame :=
  match columns with
  | [] => Ok X_copy
  | column :: rest =>
      X' ← transform_step self X_copy column; transform_loop self rest X'
  end.

(** [transform(self, X)]; iterating over [None] is a [TypeError].  The
    object is not changed, and [X] is copied first. *)
Definition transform (self : t) (X : DataFrame) : result DataFrame :=
  match columns self with
  | None => Raise (TypeError "'NoneType' object is not iterable")
  | Some cols => transform_loop self cols X
  end.

End CategoricalImputer.

(** ** [CategoricalEncoder] *)

Module CategoricalEncoder.

Record t := mk {
  categories : gmap string (list scalar);
  dropFirst : bool
}.

(** [__init__(self, dropFirst=True)]: [categories] starts as the empty
    dict. *)
Definition init (dropFirst : bool) : t := mk ∅ dropFirst.

(** [fit(self, X)]: for every object column, in column order,
    [self.categories[column] = train[column].value_counts().index.tolist()].
    Entries of other labels are left as they are. *)
Definition fit (self : t) (X : DataFrame) : t :=
  mk (foldl (λ cats s, <[name s := value_counts_index (values s)]> cats)
        (categories self) (select_dtypes (Exactly object) X))
     (dropFirst self).

(** The loop of [transform] over the object columns:
    [astype(CategoricalDtype(self.categories[column]))], where a label
    without entry in the dict is a [KeyError]. *)
Fixpoint coerce (self : t) (X_copy : DataFrame) : result (list Categorical) :=
  match X_copy with
  | [] => Ok []
  | s :: rest =>
      cats ← match categories self !! name s with
             | Some cats => Ok cats
             | None => Raise (KeyError (name s))
             end;
      c ← astype_category cats s;
      cs ← coerce self rest;
      Ok (c :: cs)
  end.

(** [transform(self, X)] *)
Definition transform (pol : concat_policy) (self : t) (X : DataFrame)
  : result DataFrame :=
  X_copy ← coerce self (select_dtypes (Exactly object) X);
  get_dummies pol (dropFirst self) X_copy.

(** The encoders [fit] can produce from a new object. *)
Definition fit_all (dropFirst : bool) (Xs : list DataFrame) : t :=
  foldl fit (init dropFirst) Xs.

End CategoricalEncoder.

(** ** The pipeline of [get_pipeline]

    Only the transformers of this file are modelled; [StandardScaler] and
    [LogisticRegression] compute on floats and are left out. *)

Module Pipeline.

(** [ColumnsSelector(type='int64')], the first stage of [pipeline_num]. *)
Definition num_selector : ColumnsSelector.t :=
  ColumnsSelector.init (Exactly int64).

(** [ColumnsSelector(type='object')], the first stage of [pipeline_cat]. *)
Definition cat_selector : ColumnsSelector.t :=
  ColumnsSelector.init (Exactly object).

Definition missing_cols : list string :=
  ["workclass"; "occupation"; "native-country"].

(** [CategoricalImputer(columns=missing_cols)] *)
Definition cat_imputer : CategoricalImputer.t :=
  CategoricalImputer.init (Some missing_cols) "most_frequent".

(** [CategoricalEncoder(dropFirst=True)] *)
Definition encoder : CategoricalEncoder.t := CategoricalEncoder.init true.

End Pipeline.

(** ** [GridSearchCV] and the tuning step of the script *)

Module GridSearchCV.

(** One point of the grid: the two classifier parameters. *)
Record params := mkParams {
  model_lr__C : Q;
  model_lr__penalty : string
}.

(** The dict of value lists given as [param_grid]. *)
Record grid := mkGrid {
  penalty_values : list string;
  C_values : list Q
}.

(** [ParameterGrid]: the product over the keys in sorted order, so [C]
    varies slowest. *)
Definition ParameterGrid (g : grid) : list params :=
  flat_map (λ c, map (λ p, mkParams c p) (penalty_values g)) (C_values g).

Section Search.

(** The cross-validated score of a candidate is computed by scikit-learn
    on floats; it is a parameter here, with the test "strictly better". *)
Context {Score : Type}.
Variable cv_score : nat → string → params → Score.
Variable better : Score → Score → bool.

(** The search object.  [best] is [None] until [fit] has run: the
    attributes [best_params_] and [best_score_] do not exist before. *)
Record t := mk {
  param_grid : grid;
  scoring : string;
  cv : nat;
  best : option (params * Score)
}.

(** [GridSearchCV(estimator, param_grid, scoring, cv)] *)
Definition init (param_grid : grid) (scoring : string) (cv : nat) : t :=
  mk param_grid scoring cv None.

(** The first candidate with the best score. *)
Definition select (cands : list params) (score : params → Score)
  : option (params * Score) :=
  foldl (λ acc p,
           match acc with
           | None => Some (p, score p)
           | Some (q, sq) =>
               if better (score p) sq then Some (p, score p) else Some (q, sq)
           end) None cands.

(** [fit]: scores every candidate of the grid and records the best. *)
Definition fit (self : t) : result t :=
  match select (ParameterGrid (param_grid self))
               (cv_score (cv self) (scoring self)) with
  | Some b => Ok (mk (param_grid self) (scoring self) (cv self) (Some b))
  | None => Raise (ValueError "No fits were performed")
  end.

(** Reading [best_params_] / [best_score_]. *)
Definition best_params_ (self : t) : result params :=
  match best self with
  | Some b => Ok b.1
  | None => Raise (AttributeError "best_params_")
  end.

Definition best_score_ (self : t) : result Score :=
  match best self with
  | Some b => Ok b.2
  | None => Raise (AttributeError "best_score_")
  end.

(** Lines 171 to 183 of the script: the grid, the search object, and the
    two reads that are printed.  No call of [fit] stands between the
    construction and the reads. *)
Definition param_range_fl : list Q := [1; 1 # 2; 1 # 10]%Q.

Definition grid_params_lr : grid := mkGrid ["l1"; "l2"] param_range_fl.

Definition gs_lr : t := init grid_params_lr "roc_auc" 10.

Definition script_report : result (params * Score) :=
  p ← best_params_ gs_lr;
  s ← best_score_ gs_lr;
  Ok (p, s).

(** The same two reads after a call of [fit], for comparison. *)
Definition report_after_fit : result (params * Score) :=
  gs ← fit gs_lr;
  p ← best_params_ gs;
  s ← best_score_ gs;
  Ok (p, s).

End Search.

End GridSearchCV.

(** ** Statements of the specification, and example tables *)

(** The order of [value_counts]: an earlier entry has at least the count
    of a later one. *)
Definition count_ge : relation (scalar * nat) := λ p q, q.2 ≤ p.2.

(** What the specification asks of the numeric selector: all the numeric
    columns of [X]. *)
Definition numeric_columns (X : DataFrame) : DataFrame :=
  filter (λ s, is_numeric (dtype s) = true) X.

(** What the specification asks [CategoricalImputer.transform] to do with
    one column, given the recorded fill values [d] and the configured
    columns: a configured column has its missing entries filled, any other
    column is passed through. *)
Definition spec_impute (d : gmap string scalar) (cols : list string)
    (s : Series) : Series :=
  if decide (name s ∈ cols)
  then match d !! name s with Some v => fillna v s | None => s end
  else s.

(** A table with an integer and a float column. *)
Definition X_mixed : DataFrame :=
  [ mkSeries "age" int64 [Some (Int 39); Some (Int 50)];
    mkSeries "rate" float64 [Some (Float "1.5"); Some (Float "0.25")] ].


(** The columns a [CategoricalImputer] works on once [fit] has seen [X]:
    the configured list, or all the columns of [X] by default. *)
Definition target_columns (self : CategoricalImputer.t) (X : DataFrame)
  : list string :=
  default (columns X) (CategoricalImputer.columns self).

(** The object-typed columns of a table, the ones [CategoricalEncoder]
    looks at. *)
Abbreviation object_columns X := (select_dtypes (Exactly object) X).

(** The categories that get an indicator column. *)
Definition emitted (drop_first : bool) (cats : list scalar) : list scalar :=
  if drop_first then drop 1 cats else cats.

(** What the specification asks [CategoricalEncoder.transform] to emit for
    one column: one indicator column per vocabulary entry (the first one
    left out under [dropFirst]), in vocabulary order, labelled
    [<column>_<category>], holding 1 where the cell is that category and 0
    elsewhere. *)
Definition spec_encode (self : CategoricalEncoder.t) (s : Series) : DataFrame :=
  match CategoricalEncoder.categories self !! name s with
  | Some cats =>
      map (indicator (name s) (values s))
          (emitted (CategoricalEncoder.dropFirst self) cats)
  | None => []
  end.

(** The state [fit] leaves for label [c] after seeing the object columns
    [cols]: the vocabulary of the last column with that label, or what
    was there before. *)
Definition vocabulary_after (old : gmap string (list scalar))
    (cols : DataFrame) (c : string) : option (list scalar) :=
  match last (filter (λ s, name s = c) cols) with
  | Some s => Some (value_counts_index (values s))
  | None => old !! c
  end.



(** Two categorical columns, and the same table without the second. *)
Definition X_two : DataFrame :=
  [ mkSeries "workclass" object [Some (Str "Private"); Some (Str "State-gov")];
    mkSeries "sex" object [Some (Str "Male"); Some (Str "Female")] ].

Definition X_one : DataFrame :=
  [ mkSeries "workclass" object [Some (Str "Private"); Some (Str "State-gov")] ].

(** A table whose only categorical column is not one of [X_one]. *)
Definition X_other : DataFrame :=
  [ mkSeries "sex" object [Some (Str "Male"); Some (Str "Female")] ].

(** ** The categorical branch of [get_pipeline]

    [pipeline_cat] is a scikit-learn [Pipeline] of the three transformers:
    [fit_transform] runs [fit] and then [transform] of each step on the
    output of the step before, [transform] runs the [transform] of each
    step in turn.  An exception of a step ends the call; the steps fitted
    before keep what they have learned. *)

Module PipelineCat.

Record t := mk {
  cat_selector : ColumnsSelector.t;
  cat_imputer : CategoricalImputer.t;
  encoder : CategoricalEncoder.t
}.

(** The pipeline as [get_pipeline] builds it. *)
Definition pipeline_cat : t :=
  mk Pipeline.cat_selector Pipeline.cat_imputer Pipeline.encoder.

(** [pipeline_cat.fit_transform(X)] *)
Definition fit_transform (pol : concat_policy) (self : t) (X : DataFrame)
  : t * result DataFrame :=
  let sel := ColumnsSelector.fit (cat_selector self) X in
  let X1 := ColumnsSelector.transform sel X in
  let (imp, fitted) := CategoricalImputer.fit (cat_imputer self) X1 in
  match fitted with
  | Raise e => (mk sel imp (encoder self), Raise e)
  | Ok _ =>
      match CategoricalImputer.transform imp X1 with
      | Raise e => (mk sel imp (encoder self), Raise e)
      | Ok X2 =>
          let enc := CategoricalEncoder.fit (encoder self) X2 in
          (mk sel imp enc, CategoricalEncoder.transform pol enc X2)
      end
  end.

(** [pipeline_cat.transform(X)] *)
Definition transform (pol : concat_policy) (self : t) (X : DataFrame)
  : result DataFrame :=
  X2 ← CategoricalImputer.transform (cat_imputer self)
         (ColumnsSelector.transform (cat_selector self) X);
  CategoricalEncoder.transform pol (encoder self) X2.

End PipelineCat.

(** ** Further statements and example tables *)

(** A column a [most_frequent] fill value can be computed from: it is in
    the table and has a value that is not missing. *)
Definition has_value (X : DataFrame) (c : string) : Prop :=
  ∃ s x, getitem X c = Ok s ∧ Some x ∈ values s.


(** A table with the three columns the pipeline imputes, an integer
    column and a float column. *)
Definition X_adult : DataFrame :=
  [ mkSeries "age" int64 [Some (Int 39); Some (Int 50); Some (Int 38)];
    mkSeries "workclass" object
      [Some (Str "Private"); None; Some (Str "State-gov")];
    mkSeries "occupation" object
      [Some (Str "Sales"); Some (Str "Sales"); Some (Str "Tech")];
    mkSeries "native-country" object
      [None; Some (Str "Cuba"); Some (Str "Cuba")];
    mkSeries "rate" float64 [Some (Float "1.5"); None; Some (Float "0.25")] ].

(** A column that holds no value at all. *)
Definition X_blank : DataFrame :=
  [ mkSeries "workclass" object [None; None] ].

(** * Properties *)

(** ** Facts about the pandas operations *)

Section ValueCounts.

Implicit Types (l : list cell) (x y : scalar) (p q : scalar * nat).

Lemma count_absent l x : Some x ∉ l → count x l = 0.
Proof.
  intros Hx. unfold count.
  destruct (filter (λ c, c = Some x) l) as [|c k] eqn:Hf; [done|].
  assert (Hc : c ∈ filter (λ c, c = Some x) l) by (rewrite Hf; by left).
  apply list_elem_of_filter in Hc as [-> ?]. done.
Qed.

Lemma count_present l x : Some x ∈ l → 0 < count x l.
Proof.
  intros Hx. unfold count.
  destruct (filter (λ c, c = Some x) l) as [|c k] eqn:Hf; [|simpl; lia].
  by destruct (filter_nil_not_elem_of _ _ (Some x) Hf).
Qed.

Lemma elem_of_first_seen l x : x ∈ first_seen l ↔ Some x ∈ l.
Proof.
  induction l as [|[y|] l IH]; simpl.
  - split; inversion 1.
  - rewrite !elem_of_cons, list_elem_of_filter, IH.
    destruct (decide (x = y)) as [->|Hne]; [tauto|].
    split; [intros [?|[_ ?]]; [done|by right]|].
    intros [[= ?]|?]; [done|by right].
  - rewrite elem_of_cons, IH. split; [by right|]. by intros [[=]|?].
Qed.

Lemma NoDup_first_seen l : NoDup (first_seen l).
Proof.
  induction l as [|[y|] l IH]; simpl; [constructor| |done].
  constructor; [|by apply NoDup_filter].
  rewrite list_elem_of_filter. by intros [? _].
Qed.

Lemma insert_desc_perm p k : insert_desc p k ≡ₚ p :: k.
Proof.
  induction k as [|q k IH]; simpl; [done|].
  destruct (q.2 <=? p.2); [done|]. by rewrite IH, Permutation_swap.
Qed.

Lemma sort_desc_perm k : sort_desc k ≡ₚ k.
Proof.
  induction k as [|p k IH]; simpl; [done|].
  by rewrite insert_desc_perm, IH.
Qed.

Lemma insert_desc_sorted p k :
  StronglySorted count_ge k → StronglySorted count_ge (insert_desc p k).
Proof.
  induction 1 as [|q k Hk IH Hq]; simpl.
  - repeat constructor.
  - destruct (Nat.leb_spec0 q.2 p.2) as [Hle|Hgt].
    + constructor; [by constructor|].
      constructor; [done|].
      eapply Forall_impl; [exact Hq|]. unfold count_ge. simpl. lia.
    + constructor; [done|].
      rewrite insert_desc_perm. constructor; [|done].
      unfold count_ge. lia.
Qed.

Lemma sort_desc_sorted k : StronglySorted count_ge (sort_desc k).
Proof.
  induction k as [|p k IH]; simpl; [constructor|].
  by apply insert_desc_sorted.
Qed.

Lemma elem_of_value_counts l p :
  p ∈ value_counts l ↔ Some p.1 ∈ l ∧ p.2 = count p.1 l.
Proof.
  unfold value_counts. rewrite sort_desc_perm, list_elem_of_fmap.
  split.
  - intros (x & -> & Hx). by apply elem_of_first_seen in Hx.
  - intros [Hx Hc]. exists p.1. rewrite elem_of_first_seen.
    split; [|done]. destruct p; simpl in *; by subst.
Qed.

Lemma elem_of_value_counts_index l x :
  x ∈ value_counts_index l ↔ Some x ∈ l.
Proof.
  unfold value_counts_index. rewrite list_elem_of_fmap. split.
  - intros (p & -> & Hp). by apply elem_of_value_counts in Hp as [? _].
  - intros Hx. exists (x, count x l). split; [done|].
    by apply elem_of_value_counts.
Qed.

Lemma NoDup_value_counts_index l : NoDup (value_counts_index l).
Proof.
  unfold value_counts_index, value_counts.
  rewrite sort_desc_perm, <- list_fmap_compose.
  rewrite (list_fmap_ext _ id (first_seen l)) by done.
  rewrite list_fmap_id. apply NoDup_first_seen.
Qed.

Lemma value_counts_sorted l : StronglySorted count_ge (value_counts l).
Proof. apply sort_desc_sorted. Qed.

(** Descending frequency, read on the index: of two positions, the
    earlier holds a value that occurs at least as often. *)
Lemma value_counts_index_desc l i j x y :
  i ≤ j →
  value_counts_index l !! i = Some x →
  value_counts_index l !! j = Some y →
  count y l ≤ count x l.
Proof.
  unfold value_counts_index. rewrite !list_lookup_fmap.
  intros Hij Hi Hj.
  destruct (value_counts l !! i) as [p|] eqn:Hp; [|done].
  destruct (value_counts l !! j) as [q|] eqn:Hq; [|done].
  simpl in *. simplify_eq.
  assert (Hpc : p.2 = count p.1 l).
  { apply (elem_of_value_counts l p). by eapply list_elem_of_lookup_2. }
  assert (Hqc : q.2 = count q.1 l).
  { apply (elem_of_value_counts l q). by eapply list_elem_of_lookup_2. }
  rewrite <- Hpc, <- Hqc.
  destruct (decide (i = j)) as [->|Hne]; [by simplify_eq|].
  assert (Hlt : i < j) by lia.
  pose proof (value_counts_sorted l) as Hs.
  revert i j Hp Hq Hlt Hij Hne. induction Hs as [|a k Hk IH Ha]; intros i j Hp Hq Hlt _ _.
  - done.
  - destruct i as [|i], j as [|j]; simpl in *; try lia.
    + simplify_eq. rewrite Forall_forall in Ha.
      apply (Ha q). by eapply list_elem_of_lookup_2.
    + apply (IH i j); auto; lia.
Qed.

(** The head of the index is a most frequent value. *)
Lemma value_counts_index_head l x k :
  value_counts_index l = x :: k →
  Some x ∈ l ∧ ∀ y, count y l ≤ count x l.
Proof.
  intros Hv. split.
  - apply elem_of_value_counts_index. rewrite Hv. by left.
  - intros y. destruct (decide (Some y ∈ l)) as [Hy|Hy].
    + apply elem_of_value_counts_index, list_elem_of_lookup in Hy as [j Hj].
      apply (value_counts_index_desc l 0 j); [lia|by rewrite Hv|done].
    + rewrite count_absent by done. lia.
Qed.

Lemma value_counts_index_nil l :
  value_counts_index l = [] ↔ ∀ x, Some x ∉ l.
Proof.
  split.
  - intros Hv x Hx. apply elem_of_value_counts_index in Hx.
    rewrite Hv in Hx. inversion Hx.
  - intros Hn. destruct (value_counts_index l) as [|x k] eqn:Hv; [done|].
    destruct (Hn x). apply elem_of_value_counts_index. rewrite Hv. by left.
Qed.

End ValueCounts.

(** ** [ColumnsSelector] *)

(** C3 (as the code has it): for every selector and every table,
    [transform] returns exactly the columns of [X] whose dtype matches the
    configured tag, unchanged and in the order of [X]; it is the empty
    table when no column matches; [fit] changes nothing.  For the selector
    of the numeric branch the tag is [int64], so the result is exactly the
    [int64] columns. *)
Theorem selector_returns_columns_of_tag (self : ColumnsSelector.t)
    (X : DataFrame) :
  ColumnsSelector.transform self X `sublist_of` X
  ∧ (∀ s, s ∈ ColumnsSelector.transform self X
          ↔ s ∈ X ∧ tag_matches (ColumnsSelector.type self) (dtype s) = true)
  ∧ ((∀ s, s ∈ X → tag_matches (ColumnsSelector.type self) (dtype s) = false)
     ↔ ColumnsSelector.transform self X = [])
  ∧ ColumnsSelector.fit self X = self
  ∧ ColumnsSelector.transform Pipeline.num_selector X
    = filter (λ s, dtype s = int64) X.
Proof.
  unfold ColumnsSelector.transform, select_dtypes, ColumnsSelector.fit.
  split_and!.
  - apply sublist_filter.
  - intros s. rewrite list_elem_of_filter. tauto.
  - split.
    + intros Hno.
      destruct (filter _ X) as [|s k] eqn:Hf; [done|].
      assert (Hs : s ∈ filter (λ s, tag_matches (ColumnsSelector.type self)
                                      (dtype s) = true) X)
        by (rewrite Hf; by left).
      apply list_elem_of_filter in Hs as [Hm Hs].
      rewrite (Hno s Hs) in Hm. done.
    + intros Hf s Hs. apply not_true_is_false. intros Hm.
      by destruct (filter_nil_not_elem_of _ _ s Hf Hm).
  - done.
  - simpl. apply list_filter_iff. intros s.
    by rewrite bool_decide_eq_true.
Qed.

(** C3 (as the specification states it) fails: on a table with a float
    column, the numeric branch's selector drops that column although it
    is numeric. *)
Lemma selector_drops_float_column :
  ColumnsSelector.transform Pipeline.num_selector X_mixed
    = [ mkSeries "age" int64 [Some (Int 39); Some (Int 50)] ]
  ∧ numeric_columns X_mixed = X_mixed
  ∧ ColumnsSelector.transform Pipeline.num_selector X_mixed
    ≠ numeric_columns X_mixed.
Proof. by vm_compute. Qed.

(** ** Facts about [getitem] and [fillna] *)

Lemma getitem_Ok (X : DataFrame) (c : string) (s : Series) :
  getitem X c = Ok s → s ∈ X ∧ name s = c.
Proof.
  induction X as [|s' X IH]; simpl; [done|].
  case_decide.
  - intros [= ->]. split; [by left|done].
  - intros H'. destruct (IH H'). split; [by right|done].
Qed.

Lemma getitem_is_ok (X : DataFrame) (c : string) :
  c ∈ columns X ↔ ∃ s, getitem X c = Ok s.
Proof.
  induction X as [|s' X IH]; simpl.
  - split; [inversion 1|by intros [? ?]].
  - rewrite elem_of_cons. case_decide as Hn.
    + split; [by eexists|by left].
    + rewrite IH. split; [intros [?|?]; [congruence|done]|by right].
Qed.

Lemma getitem_KeyError (X : DataFrame) (c : string) :
  c ∉ columns X → getitem X c = Raise (KeyError c).
Proof.
  induction X as [|s' X IH]; simpl; [done|].
  rewrite not_elem_of_cons. intros [Hne Hc].
  case_decide; [congruence|by apply IH].
Qed.

Lemma fillna_name v s : name (fillna v s) = name s.
Proof.
  unfold fillna. case_bool_decide; [|done].
  by destruct (dtype s), v.
Qed.

Lemma fillna_length v s : length (values (fillna v s)) = length (values s).
Proof.
  unfold fillna. case_bool_decide; [|done].
  destruct (dtype s), v; simpl; by rewrite length_map.
Qed.



Lemma fillna_object v s : dtype s = object → dtype (fillna v s) = object.
Proof.
  intros Hd. unfold fillna. rewrite Hd.
  case_bool_decide; [|done]. by destruct v.
Qed.

Lemma fillna_no_missing v s : None ∉ values (fillna v s).
Proof.
  unfold fillna. case_bool_decide as Hn; [|done].
  assert (∀ w, None ∉ map (λ c : cell, from_option Some (Some w) c) (values s)).
  { intros w. rewrite list_elem_of_fmap. by intros ([?|] & ? & ?). }
  destruct (dtype s), v; simpl; done.
Qed.

Lemma fillna_idemp v w s : fillna w (fillna v s) = fillna v s.
Proof.
  unfold fillna at 1.
  rewrite bool_decide_eq_false_2; [done|]. apply fillna_no_missing.
Qed.

(** ** [CategoricalImputer] *)

Section Imputer.

(** The dict comprehension succeeds when its body does on every column,
    and then holds the body's value at exactly those columns. *)
Lemma dict_of_Ok f (cols : list string) (acc : gmap string scalar) :
  (∀ c, c ∈ cols → is_ok (f c) = true) →
  ∃ d, CategoricalImputer.dict_of f cols acc = Ok d
       ∧ (∀ c, c ∈ cols → ∃ v, f c = Ok v ∧ d !! c = Some v)
       ∧ (∀ c, c ∉ cols → d !! c = acc !! c).
Proof.
  revert acc. induction cols as [|c0 cols IH]; intros acc Hok; simpl.
  - exists acc. split_and!; [done| |done]. by intros c Hc; inversion Hc.
  - pose proof (Hok c0 ltac:(by left)) as H0.
    destruct (f c0) as [v0|] eqn:Hf0; [|done]. simpl.
    destruct (IH (<[c0:=v0]> acc)) as (d & -> & Hin & Hout).
    { intros c Hc. apply Hok. by right. }
    exists d. split_and!; [done| |].
    + intros c Hc. destruct (decide (c ∈ cols)) as [Hc'|Hc']; [by apply Hin|].
      apply elem_of_cons in Hc as [->|?]; [|done].
      exists v0. by rewrite Hout, lookup_insert_eq.
    + intros c [Hne Hc]%not_elem_of_cons.
      by rewrite Hout, lookup_insert_ne.
Qed.

(** The first column on which the body raises ends the comprehension. *)
Lemma dict_of_Raise f (cols : list string) (acc : gmap string scalar) c e :
  c ∈ cols → f c = Raise e → ∃ e', CategoricalImputer.dict_of f cols acc = Raise e'.
Proof.
  revert acc. induction cols as [|c0 cols IH]; intros acc Hc Hf; simpl.
  - inversion Hc.
  - destruct (f c0) as [v0|e0] eqn:Hf0; simpl; [|by eexists].
    apply IH; [|done]. apply elem_of_cons in Hc as [->|Hc]; [congruence|done].
Qed.

Lemma most_frequent_Ok (X : DataFrame) c s x :
  getitem X c = Ok s → Some x ∈ values s →
  ∃ v, CategoricalImputer.most_frequent X c = Ok v
       ∧ Some v ∈ values s ∧ ∀ w, count w (values s) ≤ count v (values s).
Proof.
  intros Hs Hx. unfold CategoricalImputer.most_frequent. rewrite Hs. simpl.
  destruct (value_counts_index (values s)) as [|v k] eqn:Hv.
  - by destruct (proj1 (value_counts_index_nil _) Hv x).
  - exists v. split; [done|]. by eapply value_counts_index_head.
Qed.

Lemma transform_step_columns (self : CategoricalImputer.t) X c X' :
  CategoricalImputer.transform_step self X c = Ok X' → columns X' = columns X.
Proof.
  unfold CategoricalImputer.transform_step. destruct (getitem X c); [|done]. simpl.
  destruct (CategoricalImputer.fill self) as [d|]; [|done]. simpl.
  destruct (d !! c); [|done]. simpl. intros [= <-].
  unfold columns. rewrite <- list_fmap_compose. apply list_fmap_ext.
  intros i s' _. simpl. case_decide; [apply fillna_name|done].
Qed.

(** With a fill value recorded for every configured column and every
    configured column present in the table, the loop fills the configured
    columns and only them. *)
Lemma transform_loop_Ok (self : CategoricalImputer.t) d (cols : list string) (X : DataFrame) :
  CategoricalImputer.fill self = Some d →
  (∀ c, c ∈ cols → c ∈ columns X ∧ is_Some (d !! c)) →
  CategoricalImputer.transform_loop self cols X = Ok (map (spec_impute d cols) X).
Proof.
  intros Hd. revert X. induction cols as [|c cols IH]; intros X Hc; simpl.
  - f_equal. symmetry. etrans; [|apply list_fmap_id].
    apply list_fmap_ext. intros i s _. unfold spec_impute.
    by rewrite decide_False by inversion 1.
  - destruct (Hc c ltac:(by left)) as [HcX [v Hv]].
    unfold CategoricalImputer.transform_step at 1.
    apply getitem_is_ok in HcX as [s0 ->]. simpl.
    rewrite Hd. simpl. rewrite Hv. simpl.
    rewrite IH.
    + f_equal. rewrite <- list_fmap_compose. apply list_fmap_ext.
      intros i s _. simpl. unfold spec_impute.
      destruct (decide (name s = c)) as [Heq|Hne].
      * rewrite fillna_name, !Heq, Hv.
        rewrite (decide_True (P := _ ∈ _ :: _)) by (by left).
        case_decide; [by rewrite fillna_idemp|done].
      * destruct (decide (name s ∈ cols)) as [Hin|Hin].
        -- rewrite decide_True by (by right). done.
        -- rewrite decide_False; [done|]. rewrite elem_of_cons. tauto.
    + intros c' Hc'. destruct (Hc c' ltac:(by right)) as [HX ?].
      split; [|done].
      unfold columns in *. rewrite <- list_fmap_compose.
      erewrite list_fmap_ext; [exact HX|].
      intros i s _. simpl. case_decide; [apply fillna_name|done].
Qed.

End Imputer.

Lemma imputer_fit_most_frequent (self : CategoricalImputer.t) (X : DataFrame) :
  CategoricalImputer.strategy self = "most_frequent" →
  (∀ c, c ∈ target_columns self X →
        ∃ s x, getitem X c = Ok s ∧ Some x ∈ values s) →
  ∃ d,
    CategoricalImputer.fit self X
    = (CategoricalImputer.mk (Some (target_columns self X)) "most_frequent"
         (Some d), Ok ())
    ∧ (∀ c, c ∈ target_columns self X →
         ∃ s v, getitem X c = Ok s ∧ d !! c = Some v ∧ Some v ∈ values s
                ∧ ∀ w, count w (values s) ≤ count v (values s))
    ∧ (∀ c, c ∉ target_columns self X → d !! c = None).
Proof.
  intros Hs Hcols. unfold CategoricalImputer.fit. rewrite Hs. simpl.
  fold (target_columns self X).
  destruct (dict_of_Ok (CategoricalImputer.most_frequent X)
              (target_columns self X) ∅) as (d & -> & Hin & Hout).
  { intros c Hc. destruct (Hcols c Hc) as (s & x & Hg & Hx).
    by destruct (most_frequent_Ok X c s x Hg Hx) as (v & -> & _). }
  exists d. split_and!; [done| |].
  - intros c Hc. destruct (Hcols c Hc) as (s & x & Hg & Hx).
    destruct (most_frequent_Ok X c s x Hg Hx) as (v & Hv & Hvs & Hmax).
    destruct (Hin c Hc) as (v' & Hv' & Hd).
    exists s, v. split_and!; [done| |done|done]. congruence.
  - intros c Hc. by rewrite Hout.
Qed.



(** ** [CategoricalEncoder] *)

Section Encoder.

Implicit Types (self : CategoricalEncoder.t) (X : DataFrame) (s : Series).

Lemma fit_categories_lookup self X c :
  CategoricalEncoder.categories (CategoricalEncoder.fit self X) !! c
  = vocabulary_after (CategoricalEncoder.categories self) (object_columns X) c.
Proof.
  unfold CategoricalEncoder.fit, vocabulary_after. simpl.
  generalize (object_columns X) as cols. intros cols.
  induction cols as [|s cols IH] using rev_ind; [done|].
  rewrite foldl_snoc, filter_app, filter_cons, filter_nil.
  destruct (decide (name s = c)) as [<-|Hne].
  - by rewrite lookup_insert_eq, last_snoc.
  - rewrite lookup_insert_ne by done. by rewrite app_nil_r.
Qed.

Lemma vocabulary_after_absent old cols c :
  c ∉ columns cols → vocabulary_after old cols c = old !! c.
Proof.
  intros Hc. unfold vocabulary_after.
  destruct (last _) as [s|] eqn:Hl; [|done].
  apply last_Some_elem_of, list_elem_of_filter in Hl as [<- Hs].
  destruct Hc. unfold columns. apply list_elem_of_fmap. by exists s.
Qed.

Lemma vocabulary_after_present old cols c :
  c ∈ columns cols →
  ∃ s, s ∈ cols ∧ name s = c
       ∧ vocabulary_after old cols c = Some (value_counts_index (values s)).
Proof.
  intros Hc. unfold vocabulary_after.
  destruct (last _) as [s|] eqn:Hl.
  - exists s. apply last_Some_elem_of, list_elem_of_filter in Hl as [<- Hs].
    done.
  - apply last_None in Hl.
    apply list_elem_of_fmap in Hc as (s & -> & Hs).
    by destruct (filter_nil_not_elem_of _ _ s Hl).
Qed.

(** Every vocabulary of an encoder that only [fit] has written is free
    of repetitions. *)
Lemma fit_all_NoDup dropFirst (Xs : list DataFrame) c cats :
  CategoricalEncoder.categories (CategoricalEncoder.fit_all dropFirst Xs) !! c
    = Some cats →
  NoDup cats.
Proof.
  unfold CategoricalEncoder.fit_all. revert c cats.
  induction Xs as [|X Xs IH] using rev_ind; intros c cats; simpl.
  - by rewrite lookup_empty.
  - rewrite foldl_snoc, fit_categories_lookup. unfold vocabulary_after.
    destruct (last _) as [s|]; [|apply IH].
    intros [= <-]. apply NoDup_value_counts_index.
Qed.


(** The labels an encoder knows after a sequence of fits are the labels
    of the object columns it has seen. *)
Lemma fit_all_known dropFirst (Xs : list DataFrame) c :
  is_Some (CategoricalEncoder.categories
             (CategoricalEncoder.fit_all dropFirst Xs) !! c)
  ↔ ∃ X, X ∈ Xs ∧ c ∈ columns (object_columns X).
Proof.
  unfold CategoricalEncoder.fit_all.
  induction Xs as [|X Xs IH] using rev_ind; simpl.
  - rewrite lookup_empty. split; [by intros [? ?]|].
    intros (X & HX & _). inversion HX.
  - rewrite foldl_snoc, fit_categories_lookup.
    destruct (decide (c ∈ columns (object_columns X))) as [Hc|Hc].
    + destruct (vocabulary_after_present
                  (CategoricalEncoder.categories
                     (foldl CategoricalEncoder.fit
                        (CategoricalEncoder.init dropFirst) Xs)) _ _ Hc)
        as (s & _ & _ & ->).
      split; [|by eexists]. intros _. exists X.
      split; [|done]. apply elem_of_app. right. by left.
    + rewrite vocabulary_after_absent by done. rewrite IH.
      split; intros (X' & HX' & Hc').
      * exists X'. split; [|done]. apply elem_of_app. by left.
      * exists X'. split; [|done].
        apply elem_of_app in HX' as [?|HX']; [done|].
        apply list_elem_of_singleton in HX' as ->. done.
Qed.

(** Coercing to the vocabulary does not change where a category of the
    vocabulary stands. *)
Lemma indicator_coerced prefix (cats : list scalar) (cells : list cell) level :
  level ∈ cats →
  indicator prefix
    (map (λ c, match c with
               | Some x => if decide (x ∈ cats) then Some x else None
               | None => None
               end) cells) level
  = indicator prefix cells level.
Proof.
  intros Hl. unfold indicator. f_equal.
  rewrite <- list_fmap_compose. apply list_fmap_ext. intros i [x|] _; simpl.
  - destruct (decide (x ∈ cats)) as [Hx|Hx]; [done|].
    rewrite !decide_False; [done| |done]. intros [= ->]. done.
  - done.
Qed.

Lemma emitted_subseteq drop_first (cats : list scalar) level :
  level ∈ emitted drop_first cats → level ∈ cats.
Proof.
  unfold emitted. destruct drop_first; [|done].
  intros H. eapply elem_of_sublist; [exact H|]. apply sublist_drop.
Qed.

Lemma coerce_Ok self (cols : DataFrame) :
  (∀ s, s ∈ cols →
        ∃ cats, CategoricalEncoder.categories self !! name s = Some cats
                ∧ NoDup cats) →
  ∃ cs, CategoricalEncoder.coerce self cols = Ok cs
        ∧ length cs = length cols
        ∧ flat_map (get_dummies_1d (CategoricalEncoder.dropFirst self)) cs
          = flat_map (spec_encode self) cols.
Proof.
  induction cols as [|s cols IH]; intros Hk; simpl.
  - by exists [].
  - destruct (Hk s ltac:(by left)) as (cats & Hcats & Hnd).
    rewrite Hcats. simpl. unfold astype_category at 1.
    rewrite decide_True by done. simpl.
    destruct IH as (cs & -> & Hlen & Hcs).
    { intros s' Hs'. apply Hk. by right. }
    simpl. eexists. split; [done|]. simpl. split; [by rewrite Hlen|].
    rewrite Hcs. f_equal.
    unfold get_dummies_1d, spec_encode. rewrite Hcats. simpl.
    fold (emitted (CategoricalEncoder.dropFirst self) cats).
    apply list_fmap_ext. intros i level Hi.
    apply indicator_coerced.
    eapply emitted_subseteq. by eapply list_elem_of_lookup_2.
Qed.

(** [transform] succeeds on a table whose object columns all have a
    vocabulary, and emits the indicator columns of each, column after
    column. *)
Lemma encoder_transform_Ok pol self X :
  (∀ s, s ∈ object_columns X →
        ∃ cats, CategoricalEncoder.categories self !! name s = Some cats
                ∧ NoDup cats) →
  object_columns X ≠ [] ∨ pol = ConcatEmpty →
  CategoricalEncoder.transform pol self X
  = Ok (flat_map (spec_encode self) (object_columns X)).
Proof.
  intros Hk Hne. unfold CategoricalEncoder.transform.
  destruct (coerce_Ok self _ Hk) as (cs & -> & Hlen & Hcs). simpl.
  unfold get_dummies. rewrite Hcs.
  destruct cs as [|c cs]; [|done].
  destruct pol; [|done].
  destruct Hne as [Hne|?]; [|done].
  destruct (object_columns X); [done|]. done.
Qed.

(** The first object column without vocabulary makes [transform] raise
    [KeyError] with its label. *)
Lemma coerce_KeyError self (cols : DataFrame) s :
  (∀ c cats, CategoricalEncoder.categories self !! c = Some cats → NoDup cats) →
  s ∈ cols →
  CategoricalEncoder.categories self !! name s = None →
  ∃ k, k ∈ columns cols
       ∧ CategoricalEncoder.categories self !! k = None
       ∧ CategoricalEncoder.coerce self cols = Raise (KeyError k).
Proof.
  intros Hnd. induction cols as [|s0 cols IH]; intros Hs Hnone; simpl.
  - inversion Hs.
  - destruct (CategoricalEncoder.categories self !! name s0) as [cats|] eqn:H0.
    + simpl. unfold astype_category at 1.
      rewrite decide_True by (by eapply Hnd). simpl.
      destruct IH as (k & Hk & Hkn & ->); [|done|].
      { apply elem_of_cons in Hs as [->|?]; [congruence|done]. }
      exists k. split_and!; [by right|done|done].
    + exists (name s0). split_and!; [by left|done|done].
Qed.

End Encoder.

Lemma indicator_name prefix (cells : list cell) level :
  name (indicator prefix cells level) = prefix +:+ "_" +:+ str level.
Proof. done. Qed.





(** C10: for an encoder that has been fit any number of times, a table
    with an object column whose label was in none of the fitted tables
    makes [transform] raise [KeyError], with the label of such a column;
    the column is neither ignored nor passed through. *)
Theorem encoder_added_column_KeyError (pol : concat_policy) (dropFirst : bool)
    (Xs : list DataFrame) (X : DataFrame) (s : Series) :
  s ∈ object_columns X →
  (∀ X0, X0 ∈ Xs → name s ∉ columns (object_columns X0)) →
  ∃ k, k ∈ columns (object_columns X)
       ∧ (∀ X0, X0 ∈ Xs → k ∉ columns (object_columns X0))
       ∧ CategoricalEncoder.transform pol
           (CategoricalEncoder.fit_all dropFirst Xs) X
         = Raise (KeyError k).
Proof.
  intros Hs Hnew.
  destruct (coerce_KeyError (CategoricalEncoder.fit_all dropFirst Xs)
              (object_columns X) s) as (k & Hk & Hnone & Hraise).
  - intros c cats. apply fit_all_NoDup.
  - done.
  - apply eq_None_not_Some. rewrite fit_all_known.
    intros (X0 & HX0 & Hc). by destruct (Hnew X0 HX0).
  - exists k. split_and!; [done| |].
    + intros X0 HX0 Hc. apply eq_None_not_Some in Hnone. apply Hnone.
      rewrite fit_all_known. by exists X0.
    + unfold CategoricalEncoder.transform. by rewrite Hraise.
Qed.

(** The theorem on an encoder fit on [X_one] and a table that has the
    column [sex] besides. *)
Lemma encoder_added_column_KeyError_witness :
  ∃ k, k ∈ columns (object_columns X_two)
       ∧ CategoricalEncoder.transform ConcatRaises
           (CategoricalEncoder.fit_all true [X_one]) X_two
         = Raise (KeyError k).
Proof.
  destruct (encoder_added_column_KeyError ConcatRaises true [X_one] X_two
              (mkSeries "sex" object [Some (Str "Male"); Some (Str "Female")]))
    as (k & Hk & _ & Hr).
  - vm_compute. right. left.
  - intros X0 HX0. apply list_elem_of_singleton in HX0 as ->.
    vm_compute. intros H. apply list_elem_of_singleton in H. discriminate H.
  - exists k. split; [exact Hk|exact Hr].
Defined.



Lemma NoDup_columns_inj (cols : DataFrame) (s s' : Series) :
  NoDup (columns cols) → s ∈ cols → s' ∈ cols → name s = name s' → s = s'.
Proof.
  unfold columns. induction cols as [|s0 cols IH]; simpl.
  - by inversion 2.
  - intros [Hn Hnd]%NoDup_cons [->|Hs]%elem_of_cons [->|Hs']%elem_of_cons Heq;
      [done| | |by apply IH].
    + destruct Hn. rewrite Heq. apply list_elem_of_fmap. by exists s'.
    + destruct Hn. rewrite <- Heq. apply list_elem_of_fmap. by exists s.
Qed.

Lemma vocabulary_after_NoDup old (cols : DataFrame) (s : Series) :
  NoDup (columns cols) → s ∈ cols →
  vocabulary_after old cols (name s) = Some (value_counts_index (values s)).
Proof.
  intros Hnd Hs.
  destruct (vocabulary_after_present old cols (name s))
    as (s0 & Hs0 & Hname & ->).
  { unfold columns. apply list_elem_of_fmap. by exists s. }
  by rewrite (NoDup_columns_inj cols s0 s Hnd Hs0 Hs Hname).
Qed.



(** ** Calls of [transform] before [fit] *)





(** ** A second [fit] *)

Lemma encoder_eq (e e' : CategoricalEncoder.t) :
  (∀ c, CategoricalEncoder.categories e !! c
        = CategoricalEncoder.categories e' !! c) →
  CategoricalEncoder.dropFirst e = CategoricalEncoder.dropFirst e' →
  e = e'.
Proof.
  destruct e, e'; simpl. intros Hc ->. f_equal. by apply map_eq.
Qed.

Lemma imputer_fit_columns (s : CategoricalImputer.t) (X : DataFrame) :
  CategoricalImputer.columns (CategoricalImputer.fit s X).1
  = Some (target_columns s X).
Proof.
  unfold CategoricalImputer.fit, target_columns.
  destruct (String.eqb (CategoricalImputer.strategy s) "most_frequent");
    by destruct (CategoricalImputer.dict_of _ _ _).
Qed.

Lemma vocabulary_after_old old old' (cols : DataFrame) c :
  c ∈ columns cols →
  vocabulary_after old cols c = vocabulary_after old' cols c.
Proof.
  intros Hc. unfold vocabulary_after.
  destruct (last _) eqn:Hl; [done|].
  apply last_None in Hl. apply list_elem_of_fmap in Hc as (s' & -> & Hs').
  by destruct (filter_nil_not_elem_of _ _ s' Hl).
Qed.

(** C4 (as the code has it): fitting again on the same table changes
    nothing, for both transformers.  A second [fit] of the encoder on
    another table overwrites the vocabulary of each object column of
    that table and keeps every other entry.  The imputer keeps the
    columns it had after its first [fit]; its second [fit] either builds
    [fill] anew, as if there had been none, or raises and leaves [fill]
    as it was. *)
Theorem refit_overwrites_per_column (e : CategoricalEncoder.t)
    (s : CategoricalImputer.t) (X1 X2 : DataFrame) :
  CategoricalEncoder.fit (CategoricalEncoder.fit e X1) X1
  = CategoricalEncoder.fit e X1
  ∧ CategoricalImputer.fit (CategoricalImputer.fit s X1).1 X1
    = CategoricalImputer.fit s X1
  ∧ (∀ c, CategoricalEncoder.categories
            (CategoricalEncoder.fit (CategoricalEncoder.fit e X1) X2) !! c
          = if bool_decide (c ∈ columns (object_columns X2))
            then CategoricalEncoder.categories
                   (CategoricalEncoder.fit
                      (CategoricalEncoder.init true) X2) !! c
            else CategoricalEncoder.categories
                   (CategoricalEncoder.fit e X1) !! c)
  ∧ CategoricalImputer.columns (CategoricalImputer.fit s X1).1
    = Some (target_columns s X1)
  ∧ CategoricalImputer.columns
      (CategoricalImputer.fit (CategoricalImputer.fit s X1).1 X2).1
    = Some (target_columns s X1)
  ∧ (∀ cols strategy old,
       CategoricalImputer.fit (CategoricalImputer.mk cols strategy old) X2
       = match CategoricalImputer.fit
                 (CategoricalImputer.mk cols strategy None) X2 with
         | (s', Ok _) => (s', Ok ())
         | (s', Raise err) =>
             (CategoricalImputer.mk (CategoricalImputer.columns s')
                strategy old, Raise err)
         end).
Proof.
  split_and!.
  - apply encoder_eq; [|done]. intros c.
    rewrite !fit_categories_lookup. unfold vocabulary_after.
    destruct (last _) eqn:Hl; [done|].
    rewrite fit_categories_lookup. unfold vocabulary_after. by rewrite Hl.
  - unfold CategoricalImputer.fit.
    destruct (String.eqb (CategoricalImputer.strategy s) "most_frequent") eqn:Hs.
    + destruct (CategoricalImputer.dict_of _ _ _) as [d|err] eqn:Hd;
        simpl; rewrite Hs, Hd; done.
    + destruct (CategoricalImputer.dict_of _ _ _) as [d|err] eqn:Hd;
        simpl; rewrite Hs, Hd; done.
  - intros c.
    rewrite (fit_categories_lookup (CategoricalEncoder.fit e X1) X2).
    rewrite (fit_categories_lookup (CategoricalEncoder.init true) X2).
    case_bool_decide as Hc.
    + by apply vocabulary_after_old.
    + by apply vocabulary_after_absent.
  - apply imputer_fit_columns.
  - rewrite imputer_fit_columns. unfold target_columns at 1.
    by rewrite imputer_fit_columns.
  - intros cols strategy old. unfold CategoricalImputer.fit. simpl.
    destruct (String.eqb strategy "most_frequent");
      by destruct (CategoricalImputer.dict_of _ _ _).
Qed.

(** C4 (as the specification states it) fails: after a fit on a table
    with the column [workclass] and a second fit on a table without it,
    the encoder still holds the vocabulary of [workclass], which a fit on
    the second table alone does not give; and the imputer, whose columns
    were captured at the first fit, holds a fill value for [workclass]
    too, whether its second fit raised or not. *)
Lemma refit_keeps_earlier_keys :
  ("workclass" ∉ columns X_other)
  ∧ CategoricalEncoder.categories
      (CategoricalEncoder.fit
         (CategoricalEncoder.fit (CategoricalEncoder.init true) X_one)
         X_other) !! "workclass"
    = Some [Str "Private"; Str "State-gov"]
  ∧ CategoricalEncoder.categories
      (CategoricalEncoder.fit (CategoricalEncoder.init true) X_other)
      !! "workclass" = None
  ∧ CategoricalImputer.fit
      (CategoricalImputer.fit (CategoricalImputer.init None "constant")
         X_one).1 X_other
    = (CategoricalImputer.mk (Some ["workclass"]) "constant"
         (Some {[ "workclass" := Str "0" ]}), Ok ())
  ∧ CategoricalImputer.fit
      (CategoricalImputer.fit (CategoricalImputer.init None "most_frequent")
         X_one).1 X_other
    = (CategoricalImputer.mk (Some ["workclass"]) "most_frequent"
         (Some {[ "workclass" := Str "Private" ]}),
       Raise (KeyError "workclass")).
Proof.
  split_and!; try by vm_compute.
  vm_compute. intros H. apply list_elem_of_singleton in H. discriminate H.
Qed.

(** ** [transform] of a table that lacks a fitted column *)

Lemma dict_of_keys f (cols : list string) (acc d : gmap string scalar) :
  CategoricalImputer.dict_of f cols acc = Ok d →
  (∀ c, is_Some (acc !! c) → is_Some (d !! c))
  ∧ (∀ c, c ∈ cols → is_Some (d !! c)).
Proof.
  revert acc. induction cols as [|c0 cols IH]; intros acc; simpl.
  - intros [= ->]. split; [done|]. by inversion 1.
  - destruct (f c0) as [v0|]; [|done]. simpl. intros Hd.
    destruct (IH _ Hd) as [Hacc Hcols]. split.
    + intros c Hc. apply Hacc.
      destruct (decide (c = c0)) as [->|Hne].
      * by rewrite lookup_insert_eq.
      * by rewrite lookup_insert_ne.
    + intros c [->|Hc]%elem_of_cons; [|by apply Hcols].
      apply Hacc. by rewrite lookup_insert_eq.
Qed.

(** What a [fit] that returned has left in the object. *)
Lemma imputer_fit_Ok_state (self0 self : CategoricalImputer.t) (X0 : DataFrame) :
  CategoricalImputer.fit self0 X0 = (self, Ok ()) →
  ∃ d, self = CategoricalImputer.mk (Some (target_columns self0 X0))
                (CategoricalImputer.strategy self0) (Some d)
       ∧ ∀ c, c ∈ target_columns self0 X0 → is_Some (d !! c).
Proof.
  unfold CategoricalImputer.fit. fold (target_columns self0 X0).
  destruct (String.eqb _ _);
    destruct (CategoricalImputer.dict_of _ _ _) as [d|] eqn:Hd; try done;
    intros [= <-]; exists d; (split; [done|]);
    by apply (dict_of_keys _ _ _ _ Hd).
Qed.

(** The loop raises [KeyError] at the first configured column that the
    table does not have. *)
Lemma transform_loop_KeyError (self : CategoricalImputer.t) d
    (cols : list string) (X : DataFrame) c :
  CategoricalImputer.fill self = Some d →
  (∀ c, c ∈ cols → is_Some (d !! c)) →
  c ∈ cols → c ∉ columns X →
  ∃ k, k ∈ cols ∧ (k ∉ columns X)
       ∧ CategoricalImputer.transform_loop self cols X = Raise (KeyError k).
Proof.
  intros Hd. revert X. induction cols as [|c0 cols IH]; intros X Hk Hc HcX.
  - inversion Hc.
  - simpl. destruct (decide (c0 ∈ columns X)) as [H0|H0].
    + destruct (CategoricalImputer.transform_step self X c0) as [X1|e] eqn:H1.
      * simpl. pose proof (transform_step_columns _ _ _ _ H1) as Hcols.
        destruct (IH X1) as (k & Hkc & HkX & ->).
        -- intros c' Hc'. apply Hk. by right.
        -- apply elem_of_cons in Hc as [->|Hc]; [done|done].
        -- by rewrite Hcols.
        -- exists k. rewrite <- Hcols. split_and!; [by right|done|done].
      * exfalso. unfold CategoricalImputer.transform_step in H1.
        apply getitem_is_ok in H0 as [s0 H0]. rewrite H0, Hd in H1.
        simpl in H1. destruct (Hk c0 ltac:(by left)) as [v Hv].
        by rewrite Hv in H1.
    + exists c0. split_and!; [by left|done|].
      unfold CategoricalImputer.transform_step.
      by rewrite getitem_KeyError.
Qed.




(** ** The grid search of the script *)

(** C1: the script builds the search over the six combinations of
    [penalty] in [l1, l2] and [C] in [1.0, 0.5, 0.1], with [roc_auc] and
    ten folds, and reads [best_params_] and [best_score_] from it without
    a call of [fit] in between: the search object holds no result, the
    first read raises [AttributeError] (and the second would), whatever
    the scores are.  Had [fit] been called first, both reads would have
    returned, the parameters being one of the six combinations. *)
Theorem script_reads_search_before_fit {Score : Type}
    (cv_score : nat → string → GridSearchCV.params → Score)
    (better : Score → Score → bool) :
  GridSearchCV.ParameterGrid GridSearchCV.grid_params_lr
  = [ GridSearchCV.mkParams 1 "l1"; GridSearchCV.mkParams 1 "l2";
      GridSearchCV.mkParams (1 # 2) "l1"; GridSearchCV.mkParams (1 # 2) "l2";
      GridSearchCV.mkParams (1 # 10) "l1"; GridSearchCV.mkParams (1 # 10) "l2" ]
  ∧ GridSearchCV.scoring (@GridSearchCV.gs_lr Score) = "roc_auc"
  ∧ GridSearchCV.cv (@GridSearchCV.gs_lr Score) = 10
  ∧ GridSearchCV.best (@GridSearchCV.gs_lr Score) = None
  ∧ @GridSearchCV.script_report Score = Raise (AttributeError "best_params_")
  ∧ GridSearchCV.best_score_ (@GridSearchCV.gs_lr Score)
    = Raise (AttributeError "best_score_")
  ∧ ∃ p, GridSearchCV.report_after_fit cv_score better
         = Ok (p, cv_score 10 "roc_auc" p)
         ∧ p ∈ GridSearchCV.ParameterGrid GridSearchCV.grid_params_lr.
Proof.
  split_and!; try done.
  unfold GridSearchCV.report_after_fit, GridSearchCV.fit, GridSearchCV.select.
  simpl.
  repeat match goal with
         | |- context [if ?b then _ else _] => destruct b
         end;
    simpl; eexists; (split; [reflexivity|]); set_solver.
Qed.

(** * Further properties of the transformers *)

(** ** [CategoricalImputer] *)

Lemma spec_impute_name d (cols : list string) (s : Series) :
  name (spec_impute d cols s) = name s.
Proof.
  unfold spec_impute. case_decide; [|done].
  destruct (d !! name s); [apply fillna_name|done].
Qed.

Lemma spec_impute_idemp d (cols : list string) (s : Series) :
  spec_impute d cols (spec_impute d cols s) = spec_impute d cols s.
Proof.
  unfold spec_impute at 1. rewrite spec_impute_name.
  unfold spec_impute. case_decide; [|done].
  destruct (d !! name s); [apply fillna_idemp|done].
Qed.

Lemma spec_impute_columns d (cols : list string) (X : DataFrame) :
  columns (map (spec_impute d cols) X) = columns X.
Proof.
  unfold columns. rewrite <- list_fmap_compose. apply list_fmap_ext.
  intros i s _. apply spec_impute_name.
Qed.

(** X1: once [fit] has returned, [transform] of a table that has the
    configured columns returns a table with the same labels in the same
    order and the same number of rows per column, in which no configured
    column has a missing entry left; transforming the result again gives
    the result itself. *)
Theorem imputer_transform_idempotent (self0 self : CategoricalImputer.t)
    (X0 X : DataFrame) :
  CategoricalImputer.fit self0 X0 = (self, Ok ()) →
  (∀ c, c ∈ target_columns self0 X0 → c ∈ columns X) →
  ∃ Y,
    CategoricalImputer.transform self X = Ok Y
    ∧ columns Y = columns X
    ∧ map (λ s, length (values s)) Y = map (λ s, length (values s)) X
    ∧ (∀ s, s ∈ Y → name s ∈ target_columns self0 X0 → None ∉ values s)
    ∧ CategoricalImputer.transform self Y = Ok Y.
Proof.
  intros Hfit Hcols.
  destruct (imputer_fit_Ok_state _ _ _ Hfit) as (d & -> & Hd).
  set (cols := target_columns self0 X0) in *.
  assert (Hloop : ∀ X', (∀ c, c ∈ cols → c ∈ columns X') →
            CategoricalImputer.transform
              (CategoricalImputer.mk (Some cols)
                 (CategoricalImputer.strategy self0) (Some d)) X'
            = Ok (map (spec_impute d cols) X')).
  { intros X' HX'. unfold CategoricalImputer.transform. simpl.
    apply transform_loop_Ok; [done|]. intros c Hc. split; auto. }
  exists (map (spec_impute d cols) X). split_and!.
  - by apply Hloop.
  - apply spec_impute_columns.
  - rewrite <- list_fmap_compose. apply list_fmap_ext. intros i s _. simpl.
    unfold spec_impute. case_decide; [|done].
    destruct (d !! name s); [apply fillna_length|done].
  - intros s' (s & -> & Hs)%list_elem_of_fmap. rewrite spec_impute_name.
    intros Hc. unfold spec_impute. rewrite decide_True by done.
    destruct (Hd _ Hc) as [v ->]. apply fillna_no_missing.
  - rewrite Hloop by (by rewrite spec_impute_columns).
    f_equal. rewrite <- list_fmap_compose. apply list_fmap_ext.
    intros i s _. apply spec_impute_idemp.
Qed.

(** The theorem on an imputer fit on the object columns of [X_adult]. *)
Lemma imputer_transform_idempotent_witness :
  ∃ Y,
    CategoricalImputer.transform
      (CategoricalImputer.fit Pipeline.cat_imputer
         (object_columns X_adult)).1 (object_columns X_adult) = Ok Y
    ∧ CategoricalImputer.transform
        (CategoricalImputer.fit Pipeline.cat_imputer
           (object_columns X_adult)).1 Y = Ok Y.
Proof.
  destruct (imputer_transform_idempotent Pipeline.cat_imputer
              (CategoricalImputer.fit Pipeline.cat_imputer
                 (object_columns X_adult)).1
              (object_columns X_adult) (object_columns X_adult))
    as (Y & HY & _ & _ & _ & Hidem).
  - vm_compute. reflexivity.
  - intros c Hc. vm_compute in Hc. vm_compute.
    exact Hc.
  - exists Y. split; [exact HY|exact Hidem].
Defined.

(** X2: with any strategy other than [most_frequent], [fit] returns on
    every table, whether or not the table has the configured columns,
    and records the string ['0'] for each configured column and nothing
    else; [transform] of a table that has the configured columns then
    fills them with it. *)
Theorem imputer_constant_strategy (self : CategoricalImputer.t)
    (X X' : DataFrame) :
  CategoricalImputer.strategy self ≠ "most_frequent" →
  (∀ c, c ∈ target_columns self X → c ∈ columns X') →
  ∃ d,
    CategoricalImputer.fit self X
    = (CategoricalImputer.mk (Some (target_columns self X))
         (CategoricalImputer.strategy self) (Some d), Ok ())
    ∧ (∀ c, c ∈ target_columns self X → d !! c = Some (Str "0"))
    ∧ (∀ c, c ∉ target_columns self X → d !! c = None)
    ∧ CategoricalImputer.transform (CategoricalImputer.fit self X).1 X'
      = Ok (map (λ s, if decide (name s ∈ target_columns self X)
                      then fillna (Str "0") s else s) X').
Proof.
  intros Hs%String.eqb_neq Hcols. unfold CategoricalImputer.fit.
  rewrite Hs. fold (target_columns self X).
  destruct (dict_of_Ok (λ _, Ok (Str "0")) (target_columns self X) ∅)
    as (d & -> & Hin & Hout); [done|].
  assert (Hd : ∀ c, c ∈ target_columns self X → d !! c = Some (Str "0")).
  { intros c Hc. by destruct (Hin c Hc) as (v & [= <-] & ->). }
  exists d. split_and!; [done|done| |].
  - intros c Hc. by rewrite Hout.
  - simpl. unfold CategoricalImputer.transform. simpl.
    rewrite (transform_loop_Ok _ d); [|done|].
    + f_equal. apply list_fmap_ext. intros i s _. unfold spec_impute.
      case_decide as Hc; [|done]. by rewrite (Hd _ Hc).
    + intros c Hc. split; [by apply Hcols|]. rewrite (Hd _ Hc). by eexists.
Qed.

(** The theorem on an imputer with strategy [constant] and a configured
    column that the fitted table does not have. *)
Lemma imputer_constant_strategy_witness :
  ∃ d,
    CategoricalImputer.fit
      (CategoricalImputer.init (Some ["workclass"]) "constant") X_mixed
    = (CategoricalImputer.mk (Some ["workclass"]) "constant" (Some d), Ok ())
    ∧ d !! "workclass" = Some (Str "0")
    ∧ CategoricalImputer.transform
        (CategoricalImputer.fit
           (CategoricalImputer.init (Some ["workclass"]) "constant")
           X_mixed).1 X_blank
      = Ok [ mkSeries "workclass" object [Some (Str "0"); Some (Str "0")] ].
Proof.
  destruct (imputer_constant_strategy
              (CategoricalImputer.init (Some ["workclass"]) "constant")
              X_mixed X_blank) as (d & Hfit & Hin & _ & Ht).
  - vm_compute. discriminate.
  - intros c Hc. vm_compute in Hc. vm_compute. exact Hc.
  - exists d. split_and!; [exact Hfit| |].
    + apply Hin. vm_compute. left.
    + rewrite Ht. vm_compute. reflexivity.
Defined.

Lemma getitem_Raise (X : DataFrame) (c : string) e :
  getitem X c = Raise e → e = KeyError c ∧ c ∉ columns X.
Proof.
  induction X as [|s X IH]; simpl.
  - intros [= <-]. split; [done|]. inversion 1.
  - case_decide as Hn; [done|]. intros [-> Hc]%IH.
    split; [done|]. rewrite not_elem_of_cons. by split.
Qed.

Lemma most_frequent_Raise (X : DataFrame) (c : string) e :
  CategoricalImputer.most_frequent X c = Raise e →
  (e = KeyError c ∧ c ∉ columns X)
  ∨ (e = IndexError "index 0 is out of bounds for axis 0 with size 0"
     ∧ c ∈ columns X).
Proof.
  unfold CategoricalImputer.most_frequent.
  destruct (getitem X c) as [s|e'] eqn:Hg; simpl.
  - destruct (value_counts_index (values s)); [|done].
    intros [= <-]. right. split; [done|]. apply getitem_is_ok. by exists s.
  - intros [= <-]. left. by apply getitem_Raise.
Qed.


Lemma most_frequent_has_value (X : DataFrame) (c : string) v :
  CategoricalImputer.most_frequent X c = Ok v → has_value X c.
Proof.
  unfold CategoricalImputer.most_frequent.
  destruct (getitem X c) as [s|e'] eqn:Hg; simpl; [|done].
  destruct (value_counts_index (values s)) as [|x k] eqn:Hv; [done|].
  intros _. exists s, x. split; [done|].
  apply elem_of_value_counts_index. rewrite Hv. by left.
Qed.




(** ** The two selectors of [get_pipeline] *)

Lemma select_dtypes_idemp (t : type_tag) (X : DataFrame) :
  select_dtypes t (select_dtypes t X) = select_dtypes t X.
Proof.
  unfold select_dtypes. induction X as [|s X IH]; [done|].
  rewrite (filter_cons _ s X). case_decide as Hm; [|done].
  rewrite filter_cons, decide_True by done. by rewrite IH.
Qed.

Lemma select_dtypes_disjoint (d d' : Dtype) (X : DataFrame) :
  d ≠ d' → select_dtypes (Exactly d) (select_dtypes (Exactly d') X) = [].
Proof.
  intros Hne. unfold select_dtypes. induction X as [|s X IH]; [done|].
  rewrite (filter_cons _ s X). case_decide as Hm; [|done].
  rewrite filter_cons, IH. rewrite decide_False; [done|].
  simpl in *. apply bool_decide_eq_true in Hm. rewrite Hm.
  by rewrite bool_decide_eq_false_2.
Qed.

(** X4: the two branches of the pipeline start from disjoint parts of
    the table: a column is selected by one of the two selectors exactly
    when its dtype is [int64] or [object], and by at most one of them;
    a column of any other dtype, such as [float64], reaches neither
    branch.  Selecting twice is selecting once, and selecting with one
    selector from what the other returned gives the empty table. *)
Theorem pipeline_selectors_split (X : DataFrame) :
  (∀ s, s ∈ ColumnsSelector.transform Pipeline.num_selector X
        ∨ s ∈ ColumnsSelector.transform Pipeline.cat_selector X
        ↔ s ∈ X ∧ (dtype s = int64 ∨ dtype s = object))
  ∧ (∀ s, s ∈ ColumnsSelector.transform Pipeline.num_selector X →
          s ∉ ColumnsSelector.transform Pipeline.cat_selector X)
  ∧ (∀ s, s ∈ X → dtype s = float64 ∨ dtype s = uint8 →
          (s ∉ ColumnsSelector.transform Pipeline.num_selector X)
          ∧ (s ∉ ColumnsSelector.transform Pipeline.cat_selector X))
  ∧ (∀ self : ColumnsSelector.t,
       ColumnsSelector.transform self (ColumnsSelector.transform self X)
       = ColumnsSelector.transform self X)
  ∧ ColumnsSelector.transform Pipeline.cat_selector
      (ColumnsSelector.transform Pipeline.num_selector X) = []
  ∧ ColumnsSelector.transform Pipeline.num_selector
      (ColumnsSelector.transform Pipeline.cat_selector X) = []
  ∧ length (ColumnsSelector.transform Pipeline.num_selector X)
    + length (ColumnsSelector.transform Pipeline.cat_selector X)
    + length (filter (λ s, dtype s = float64 ∨ dtype s = uint8) X)
    = length X.
Proof.
  unfold ColumnsSelector.transform. simpl.
  assert (Hnum : ∀ s, s ∈ select_dtypes (Exactly int64) X
                      ↔ s ∈ X ∧ dtype s = int64).
  { intros s. unfold select_dtypes. rewrite list_elem_of_filter. simpl.
    rewrite bool_decide_eq_true. tauto. }
  assert (Hcat : ∀ s, s ∈ select_dtypes (Exactly object) X
                      ↔ s ∈ X ∧ dtype s = object).
  { intros s. unfold select_dtypes. rewrite list_elem_of_filter. simpl.
    rewrite bool_decide_eq_true. tauto. }
  split_and!.
  - intros s. rewrite Hnum, Hcat. tauto.
  - intros s. rewrite Hnum, Hcat. intros [_ Hd] [_ Hd']. congruence.
  - intros s Hs Hd. rewrite Hnum, Hcat.
    split; intros [_ Hd']; destruct Hd; congruence.
  - intros self. apply select_dtypes_idemp.
  - by apply select_dtypes_disjoint.
  - by apply select_dtypes_disjoint.
  - clear Hnum Hcat. unfold select_dtypes.
    induction X as [|s X IH]; [done|].
    rewrite !filter_cons. simpl.
    destruct (dtype s) eqn:Hd; repeat case_decide; simpl in *;
      try lia; try done; exfalso; intuition congruence.
Qed.

(** ** Rows of the encoder's output *)











(** ** [fit] and [transform] of the encoder on one table *)



(** X8: what [fit] learns does not depend on the order of the columns:
    two tables with distinct labels whose object columns are the same up
    to their order leave the encoder in the same state. *)
Theorem encoder_fit_column_order (self : CategoricalEncoder.t)
    (X X' : DataFrame) :
  NoDup (columns (object_columns X)) →
  object_columns X ≡ₚ object_columns X' →
  CategoricalEncoder.fit self X = CategoricalEncoder.fit self X'.
Proof.
  intros Hnd Hperm.
  assert (Hnd' : NoDup (columns (object_columns X'))).
  { unfold columns in *. by rewrite <- Hperm. }
  apply encoder_eq; [|done]. intros c. rewrite !fit_categories_lookup.
  destruct (decide (c ∈ columns (object_columns X))) as [Hc|Hc].
  - apply list_elem_of_fmap in Hc as (s & -> & Hs).
    rewrite (vocabulary_after_NoDup _ _ s Hnd Hs).
    rewrite (vocabulary_after_NoDup _ _ s Hnd'); [done|].
    by rewrite <- Hperm.
  - rewrite !vocabulary_after_absent; [done| |done].
    unfold columns in *. by rewrite <- Hperm.
Qed.

(** The theorem on [X_two] and the table with its columns swapped. *)
Lemma encoder_fit_column_order_witness :
  CategoricalEncoder.fit (CategoricalEncoder.init true) X_two
  = CategoricalEncoder.fit (CategoricalEncoder.init true) (X_other ++ X_one).
Proof.
  apply (encoder_fit_column_order (CategoricalEncoder.init true) X_two
           (X_other ++ X_one)).
  - vm_compute. apply NoDup_cons. split.
    + intros H. apply list_elem_of_singleton in H. discriminate H.
    + apply NoDup_singleton.
  - vm_compute. apply Permutation_swap.
Defined.

(** ** The categorical branch of the pipeline *)

Lemma object_columns_dtype (X : DataFrame) (s : Series) :
  s ∈ object_columns X → dtype s = object.
Proof.
  unfold select_dtypes. rewrite list_elem_of_filter. simpl.
  rewrite bool_decide_eq_true. by intros [? _].
Qed.

Lemma object_columns_all_object (X : DataFrame) :
  (∀ s, s ∈ X → dtype s = object) → object_columns X = X.
Proof.
  intros Hall. unfold select_dtypes. induction X as [|s X IH]; [done|].
  rewrite filter_cons, decide_True.
  - f_equal. apply IH. intros s' Hs'. apply Hall. by right.
  - simpl. apply bool_decide_eq_true. apply Hall. by left.
Qed.

Lemma spec_impute_object d (cols : list string) (X : DataFrame) :
  (∀ s, s ∈ X → dtype s = object) →
  object_columns (map (spec_impute d cols) X) = map (spec_impute d cols) X.
Proof.
  intros Hall. apply object_columns_all_object.
  intros s' (s & -> & Hs)%list_elem_of_fmap. unfold spec_impute.
  case_decide; [|by apply Hall].
  destruct (d !! name s); [apply fillna_object|]; by apply Hall.
Qed.

Lemma dict_of_Ok_inv f (cols : list string) (acc d : gmap string scalar) :
  CategoricalImputer.dict_of f cols acc = Ok d →
  ∀ c, c ∈ cols → is_ok (f c) = true.
Proof.
  revert acc. induction cols as [|c0 cols IH]; intros acc; simpl.
  - intros _ c Hc. inversion Hc.
  - destruct (f c0) as [v0|] eqn:Hf0; [|done]. simpl.
    intros Hd c [->|Hc]%elem_of_cons; [by rewrite Hf0|by eapply IH].
Qed.

Lemma dict_of_Raise_inv f (cols : list string) (acc : gmap string scalar) e :
  CategoricalImputer.dict_of f cols acc = Raise e →
  ∃ k, k ∈ cols ∧ f k = Raise e.
Proof.
  revert acc. induction cols as [|c0 cols IH]; intros acc; simpl; [done|].
  destruct (f c0) as [v0|e0] eqn:H0; simpl.
  - intros (k & Hk & Hr)%IH. exists k. split; [by right|done].
  - intros [= ->]. exists c0. split; [by left|done].
Qed.

(** A [most_frequent] fit that returned found a value in each of its
    columns; one that raised has the exception of one of them. *)
Lemma imputer_fit_Ok_has_value (self imp : CategoricalImputer.t)
    (X : DataFrame) :
  CategoricalImputer.strategy self = "most_frequent" →
  CategoricalImputer.fit self X = (imp, Ok ()) →
  ∀ c, c ∈ target_columns self X → has_value X c.
Proof.
  intros Hs Hfit. unfold CategoricalImputer.fit in Hfit.
  rewrite Hs in Hfit. cbv zeta in Hfit. rewrite String.eqb_refl in Hfit.
  fold (target_columns self X) in Hfit.
  destruct (CategoricalImputer.dict_of _ _ _) as [d'|] eqn:Hdict; [|done].
  intros c Hc. pose proof (dict_of_Ok_inv _ _ _ _ Hdict c Hc) as Hok.
  destruct (CategoricalImputer.most_frequent X c) as [v|] eqn:Hv; [|done].
  by eapply most_frequent_has_value.
Qed.

Lemma imputer_fit_Raise_inv (self imp : CategoricalImputer.t)
    (X : DataFrame) e :
  CategoricalImputer.strategy self = "most_frequent" →
  CategoricalImputer.fit self X = (imp, Raise e) →
  ∃ k, k ∈ target_columns self X
       ∧ CategoricalImputer.most_frequent X k = Raise e.
Proof.
  intros Hs Hfit. unfold CategoricalImputer.fit in Hfit.
  rewrite Hs in Hfit. cbv zeta in Hfit. rewrite String.eqb_refl in Hfit.
  fold (target_columns self X) in Hfit.
  destruct (CategoricalImputer.dict_of _ _ _) as [d'|e'] eqn:Hdict; [done|].
  injection Hfit as _ ->. by eapply dict_of_Raise_inv.
Qed.

(** A fit of the pipeline's imputer that returned found a value in each
    of its three columns. *)
Lemma cat_imputer_fit_Ok (X1 : DataFrame) (imp : CategoricalImputer.t) :
  CategoricalImputer.fit Pipeline.cat_imputer X1 = (imp, Ok ()) →
  ∃ d, imp = CategoricalImputer.mk (Some Pipeline.missing_cols)
               "most_frequent" (Some d)
       ∧ (∀ c, c ∈ Pipeline.missing_cols → is_Some (d !! c))
       ∧ (∀ c, c ∈ Pipeline.missing_cols → has_value X1 c).
Proof.
  intros Hfit.
  destruct (imputer_fit_Ok_state _ _ _ Hfit) as (d & -> & Hd).
  exists d. split_and!; [done|done|].
  by apply (imputer_fit_Ok_has_value Pipeline.cat_imputer _ X1 eq_refl Hfit).
Qed.

Lemma has_value_column (X : DataFrame) (c : string) :
  has_value X c → c ∈ columns X.
Proof. intros (s & _ & Hg & _). apply getitem_is_ok. by exists s. Qed.

(** [transform] of a fitted imputer, by cases on the table. *)
Lemma imputer_transform_cases d (cols : list string) strategy (X : DataFrame) :
  (∀ c, c ∈ cols → is_Some (d !! c)) →
  ((∀ c, c ∈ cols → c ∈ columns X)
   ∧ CategoricalImputer.transform
       (CategoricalImputer.mk (Some cols) strategy (Some d)) X
     = Ok (map (spec_impute d cols) X))
  ∨ (∃ k, k ∈ cols ∧ (k ∉ columns X)
          ∧ CategoricalImputer.transform
              (CategoricalImputer.mk (Some cols) strategy (Some d)) X
            = Raise (KeyError k)).
Proof.
  intros Hd. unfold CategoricalImputer.transform. simpl.
  destruct (decide (Forall (λ c, c ∈ columns X) cols)) as [Hall|Hnot].
  - left. rewrite Forall_forall in Hall. split; [done|].
    apply transform_loop_Ok; [done|]. intros c Hc. split; auto.
  - right. apply not_Forall_Exists, Exists_exists in Hnot as (c & Hc & HcX);
      [|apply _].
    by eapply transform_loop_KeyError.
Qed.

(** [transform] of an encoder that was fit once, by cases on a table of
    object columns. *)
Lemma encoder_transform_cases pol (X2 X2' : DataFrame) :
  (∀ s, s ∈ X2 → dtype s = object) →
  (∀ s, s ∈ X2' → dtype s = object) →
  X2' ≠ [] →
  ((∀ c, c ∈ columns X2' → c ∈ columns X2)
   ∧ CategoricalEncoder.transform pol
       (CategoricalEncoder.fit Pipeline.encoder X2) X2'
     = Ok (flat_map
             (spec_encode (CategoricalEncoder.fit Pipeline.encoder X2)) X2'))
  ∨ (∃ k, k ∈ columns X2' ∧ (k ∉ columns X2)
          ∧ CategoricalEncoder.transform pol
              (CategoricalEncoder.fit Pipeline.encoder X2) X2'
            = Raise (KeyError k)).
Proof.
  intros Hobj Hobj' Hne.
  pose proof (object_columns_all_object _ Hobj) as HX2.
  pose proof (object_columns_all_object _ Hobj') as HX2'.
  assert (Hknown : ∀ c,
            is_Some (CategoricalEncoder.categories
                       (CategoricalEncoder.fit Pipeline.encoder X2) !! c)
            ↔ c ∈ columns X2).
  { intros c.
    change (CategoricalEncoder.fit Pipeline.encoder X2)
      with (CategoricalEncoder.fit_all true [X2]).
    rewrite fit_all_known. split.
    - intros (X0 & ->%list_elem_of_singleton & Hc). by rewrite HX2 in Hc.
    - intros Hc. exists X2. split; [by left|by rewrite HX2]. }
  assert (Hnd : ∀ c cats,
            CategoricalEncoder.categories
              (CategoricalEncoder.fit Pipeline.encoder X2) !! c = Some cats →
            NoDup cats).
  { intros c cats. apply (fit_all_NoDup true [X2]). }
  destruct (decide (Forall (λ s, name s ∈ columns X2) X2')) as [Hall|Hnot].
  - left. rewrite Forall_forall in Hall. split.
    + intros c (s & -> & Hs)%list_elem_of_fmap. by apply Hall.
    + rewrite <- HX2' at 2. apply encoder_transform_Ok.
      * rewrite HX2'. intros s Hs.
        destruct (proj2 (Hknown (name s)) (Hall s Hs)) as [cats Hcats].
        exists cats. split; [done|]. by eapply Hnd.
      * left. by rewrite HX2'.
  - right. apply not_Forall_Exists, Exists_exists in Hnot as (s & Hs & Hc);
      [|apply _].
    destruct (coerce_KeyError (CategoricalEncoder.fit Pipeline.encoder X2)
                X2' s Hnd Hs) as (k & Hk & Hnone & Hraise).
    { apply eq_None_not_Some. by rewrite Hknown. }
    exists k. split_and!; [done| |].
    + rewrite <- Hknown. by apply eq_None_not_Some.
    + unfold CategoricalEncoder.transform. by rewrite HX2', Hraise.
Qed.

(** What a [fit_transform] of the pipeline that returned has computed. *)
Lemma pipeline_cat_fit_Ok pol (X : DataFrame) (p : PipelineCat.t)
    (Y : DataFrame) :
  PipelineCat.fit_transform pol PipelineCat.pipeline_cat X = (p, Ok Y) →
  ∃ d,
    p = PipelineCat.mk Pipeline.cat_selector
          (CategoricalImputer.mk (Some Pipeline.missing_cols)
             "most_frequent" (Some d))
          (CategoricalEncoder.fit Pipeline.encoder
             (map (spec_impute d Pipeline.missing_cols) (object_columns X)))
    ∧ (∀ c, c ∈ Pipeline.missing_cols → is_Some (d !! c))
    ∧ (∀ c, c ∈ Pipeline.missing_cols → has_value (object_columns X) c)
    ∧ CategoricalEncoder.transform pol
        (CategoricalEncoder.fit Pipeline.encoder
           (map (spec_impute d Pipeline.missing_cols) (object_columns X)))
        (map (spec_impute d Pipeline.missing_cols) (object_columns X))
      = Ok Y.
Proof.
  unfold PipelineCat.fit_transform. simpl.
  unfold ColumnsSelector.fit, ColumnsSelector.transform. simpl.
  destruct (CategoricalImputer.fit Pipeline.cat_imputer (object_columns X))
    as [imp [[]|e]] eqn:Hfit; [|done].
  destruct (cat_imputer_fit_Ok _ _ Hfit) as (d & -> & Hd & Hval).
  destruct (imputer_transform_cases d Pipeline.missing_cols "most_frequent"
              (object_columns X) Hd) as [[_ ->]|(k & Hk & HkX & _)].
  - intros [= <- HY]. exists d. by split_and!.
  - destruct HkX. by apply has_value_column, Hval.
Qed.

(** X9: [fit_transform] of the categorical branch returns exactly on the
    tables in which [workclass], [occupation] and [native-country] are
    object columns with at least one value each; otherwise the imputer's
    [fit] raises and that exception, a [KeyError] or an [IndexError],
    ends the call. *)
Theorem pipeline_cat_fit_needs_columns (pol : concat_policy) (X : DataFrame) :
  (is_ok (PipelineCat.fit_transform pol PipelineCat.pipeline_cat X).2 = true
   ↔ ∀ c, c ∈ Pipeline.missing_cols → has_value (object_columns X) c)
  ∧ ∀ e, (PipelineCat.fit_transform pol PipelineCat.pipeline_cat X).2 = Raise e →
         ∃ k, k ∈ Pipeline.missing_cols
              ∧ ¬ has_value (object_columns X) k
              ∧ (e = KeyError k
                 ∨ e = IndexError
                         "index 0 is out of bounds for axis 0 with size 0").
Proof.
  assert (Hgood : (∀ c, c ∈ Pipeline.missing_cols →
                        has_value (object_columns X) c) →
            is_ok (PipelineCat.fit_transform pol PipelineCat.pipeline_cat X).2
            = true).
  { intros Hval.
    destruct (imputer_fit_most_frequent Pipeline.cat_imputer (object_columns X))
      as (d & Hfit & Hin & _); [done|exact Hval|].
    change (target_columns Pipeline.cat_imputer (object_columns X))
      with Pipeline.missing_cols in *.
    assert (Hd : ∀ c, c ∈ Pipeline.missing_cols → is_Some (d !! c)).
    { intros c Hc. destruct (Hin c Hc) as (? & v & _ & -> & _). by eexists. }
    unfold PipelineCat.fit_transform. simpl.
    unfold ColumnsSelector.fit, ColumnsSelector.transform. simpl.
    rewrite Hfit.
    destruct (imputer_transform_cases d Pipeline.missing_cols "most_frequent"
                (object_columns X) Hd) as [[_ ->]|(k & Hk & HkX & _)];
      [|destruct HkX; by apply has_value_column, Hval].
    simpl.
    destruct (encoder_transform_cases pol
                (map (spec_impute d Pipeline.missing_cols) (object_columns X))
                (map (spec_impute d Pipeline.missing_cols) (object_columns X)))
      as [[_ ->]|(k & Hk & HkX & _)]; try done.
    - rewrite <- spec_impute_object by apply object_columns_dtype.
      apply object_columns_dtype.
    - rewrite <- spec_impute_object by apply object_columns_dtype.
      apply object_columns_dtype.
    - intros Hnil. apply (f_equal columns) in Hnil.
      rewrite spec_impute_columns in Hnil.
      pose proof (has_value_column _ _ (Hval "workclass" ltac:(by left))) as Hw.
      rewrite Hnil in Hw. inversion Hw. }
  split.
  - split; [|exact Hgood].
    destruct (PipelineCat.fit_transform pol PipelineCat.pipeline_cat X)
      as [p [Y|e]] eqn:Hft; [|done].
    intros _. by destruct (pipeline_cat_fit_Ok _ _ _ _ Hft) as (d & _ & _ & ? & _).
  - intros e He.
    assert (Hnot : ¬ ∀ c, c ∈ Pipeline.missing_cols →
                          has_value (object_columns X) c).
    { intros Hval. apply Hgood in Hval. by rewrite He in Hval. }
    unfold PipelineCat.fit_transform in He. simpl in He.
    unfold ColumnsSelector.fit, ColumnsSelector.transform in He. simpl in He.
    destruct (CategoricalImputer.fit Pipeline.cat_imputer (object_columns X))
      as [imp [[]|e']] eqn:Hfit.
    + exfalso. by destruct (cat_imputer_fit_Ok _ _ Hfit) as (d & _ & _ & Hval).
    + simpl in He. injection He as ->.
      destruct (imputer_fit_Raise_inv Pipeline.cat_imputer _ _ _ eq_refl Hfit)
        as (k & Hk & Hr).
      change (target_columns Pipeline.cat_imputer (object_columns X))
        with Pipeline.missing_cols in Hk.
      exists k. split_and!; [done| |].
      * intros (s & x & Hg & Hx).
        destruct (most_frequent_Ok _ k s x Hg Hx) as (v & Hv & _). congruence.
      * destruct (most_frequent_Raise _ _ _ Hr) as [[-> _]|[-> _]];
          [by left|by right].
Qed.

(** X10: once [fit_transform] has returned on a table, [transform] of
    that table returns the same result, and [transform] of another table
    returns exactly when that table has the three imputed columns among
    its object columns and no object column that the fitted table did not
    have; in the other cases it raises. *)
Theorem pipeline_cat_transform_schema (pol : concat_policy)
    (X X' : DataFrame) (p : PipelineCat.t) (Y : DataFrame) :
  PipelineCat.fit_transform pol PipelineCat.pipeline_cat X = (p, Ok Y) →
  PipelineCat.transform pol p X = Ok Y
  ∧ (is_ok (PipelineCat.transform pol p X') = true
     ↔ (∀ c, c ∈ Pipeline.missing_cols → c ∈ columns (object_columns X'))
       ∧ (∀ c, c ∈ columns (object_columns X') →
               c ∈ columns (object_columns X))).
Proof.
  intros Hft.
  destruct (pipeline_cat_fit_Ok _ _ _ _ Hft) as (d & -> & Hd & Hval & HY).
  assert (Himp : ∀ X0, (∀ s, s ∈ map (spec_impute d Pipeline.missing_cols)
                                   (object_columns X0) → dtype s = object)).
  { intros X0. rewrite <- spec_impute_object by apply object_columns_dtype.
    apply object_columns_dtype. }
  unfold PipelineCat.transform. simpl.
  unfold ColumnsSelector.transform. simpl. split.
  - destruct (imputer_transform_cases d Pipeline.missing_cols "most_frequent"
                (object_columns X) Hd) as [[_ ->]|(k & Hk & HkX & _)];
      [done|]. destruct HkX. by apply has_value_column, Hval.
  - destruct (imputer_transform_cases d Pipeline.missing_cols "most_frequent"
                (object_columns X') Hd) as [[Hall ->]|(k & Hk & HkX & ->)].
    + simpl.
      destruct (encoder_transform_cases pol
                  (map (spec_impute d Pipeline.missing_cols) (object_columns X))
                  (map (spec_impute d Pipeline.missing_cols)
                     (object_columns X')))
        as [[Hsub ->]|(k & Hk & HkX & ->)]; try apply Himp.
      * intros Hnil. apply (f_equal columns) in Hnil.
        rewrite spec_impute_columns in Hnil.
        pose proof (Hall "workclass" ltac:(by left)) as Hw.
        rewrite Hnil in Hw. inversion Hw.
      * rewrite !spec_impute_columns in Hsub. by split.
      * rewrite !spec_impute_columns in Hk, HkX. simpl.
        split; [done|]. intros [_ Hsub]. destruct HkX. by apply Hsub.
    + simpl. split; [done|]. intros [Hall _]. destruct HkX. by apply Hall.
Qed.

(** The theorem on the pipeline fit on [X_adult]: the table itself is
    transformed, a table with a fourth object column is not. *)
Lemma pipeline_cat_transform_schema_witness :
  ∃ Y,
    PipelineCat.transform ConcatRaises
      (PipelineCat.fit_transform ConcatRaises PipelineCat.pipeline_cat
         X_adult).1 X_adult = Ok Y
    ∧ length Y = 2
    ∧ is_ok (PipelineCat.transform ConcatRaises
               (PipelineCat.fit_transform ConcatRaises PipelineCat.pipeline_cat
                  X_adult).1 (X_adult ++ X_other)) = false.
Proof.
  destruct (PipelineCat.fit_transform ConcatRaises PipelineCat.pipeline_cat
              X_adult) as [p [Y|e]] eqn:Hft; [|vm_compute in Hft; discriminate Hft].
  destruct (pipeline_cat_transform_schema ConcatRaises X_adult
              (X_adult ++ X_other) p Y Hft) as [HY Hiff].
  exists Y. split_and!.
  - exact HY.
  - vm_compute in Hft. injection Hft as _ <-. reflexivity.
  - apply not_true_is_false. intros Hok. apply Hiff in Hok as [_ Hsub].
    pose proof (Hsub "sex") as Hsex. vm_compute in Hsex.
    assert (Hin : "sex" ∈ ["workclass"; "occupation"; "native-country"; "sex"]).
    { right. right. right. left. }
    apply Hsex in Hin.
    repeat (apply elem_of_cons in Hin as [Hin|Hin]; [discriminate Hin|]).
    inversion Hin.
Defined.
